(** * The generalized L_p metric of mlpack (core/kernels/lmetric.hpp)

    Two shallow embeddings of [LMetric<t_pow, t_take_root>::Evaluate] and of
    the three convenience typedefs.

    On the reals (the top level of this file).  [double] is read as [R] with
    exact arithmetic.  The places where the C library leaves the finite reals
    are kept as explicit errors:
    - [pow] of zero to a negative exponent (a pole, +inf in C),
    - [pow] of a negative base to a non-integral exponent (NaN in C),
    - a division by zero ([1.0 / t_pow] with [t_pow = 0], +inf in C).
    Element access [v[i]] is not bounds-checked in the source; the embedding
    makes it total by returning the error [OutOfBounds].  This embedding
    carries the properties that rounding does not touch: symmetry, sign,
    zero, the range of the indices, order.

    On binary64 (module [Binary64]).  [double] is the IEEE 754 type, every
    operation rounds, infinities and NaN are values.  This embedding carries
    what the code returns as doubles, and the inputs on which rounding
    separates it from the exact formulas of the documentation. *)

From Stdlib Require Import Reals Lra Lia List ZArith Bool.
From Stdlib Require QArith Qabs PrimFloat SpecFloat FloatOps.
Import ListNotations.

Local Open Scope R_scope.

(** ** Results of a computation that may fail *)

Inductive error : Set :=
| OutOfBounds   (* v[i] with i >= v.n_elem *)
| Infinite      (* a pole: the C result is +inf or -inf *)
| NotANumber.   (* a domain error: the C result is NaN *)

Inductive result (A : Type) : Type :=
| Ok (x : A)
| Err (e : error).

Arguments Ok {A} x.
Arguments Err {A} e.

Definition bind {A B : Type} (m : result A) (k : A -> result B) : result B :=
  match m with
  | Ok x => k x
  | Err e => Err e
  end.

Notation "x <- m ;; k" := (bind m (fun x => k))
  (at level 61, m at next level, right associativity).

(** ** Vectors (arma::vec) *)

Definition vec : Type := list R.

Definition n_elem (v : vec) : nat := length v.

(** [v[i]]: unchecked in the source, an error here when [i] is out of range. *)
Definition at_ (v : vec) (i : nat) : result R :=
  match nth_error v i with
  | Some x => Ok x
  | None => Err OutOfBounds
  end.

(** ** The numeric primitives of <cmath> on the reals *)

Definition fabs (x : R) : R := Rabs x.

(** Is the real [y] an integer, and which one. *)
Definition integral (y : R) : option Z :=
  if Req_dec_T y (IZR (Int_part y)) then Some (Int_part y) else None.

(** [pow(x, y)] as C defines it, restricted to finite results:
    - [pow(0, y)] is 0 for [y > 0], 1 for [y = 0] and a pole for [y < 0];
    - [pow(x, y)] for [x > 0] is [exp (y * ln x)];
    - [pow(x, y)] for [x < 0] is defined only when [y] is an integer. *)
Definition pow (x y : R) : result R :=
  if Req_dec_T x 0 then
    if Rlt_dec 0 y then Ok 0
    else if Req_dec_T y 0 then Ok 1
    else Err Infinite
  else if Rlt_dec 0 x then Ok (Rpower x y)
  else
    match integral y with
    | Some z => Ok (powerRZ x z)
    | None => Err NotANumber
    end.

(** [x / y] on doubles: a zero divisor leaves the finite reals. *)
Definition fdiv (x y : R) : result R :=
  if Req_dec_T y 0 then Err Infinite else Ok (x / y).

(** ** LMetric<t_pow, t_take_root> *)

Section LMetric.

(** The two template parameters. *)
Variable t_pow : Z.
Variable t_take_root : bool.

(** The loop [for (i = 0; i < a.n_elem; i++) sum += pow(fabs(a[i] - b[i]), t_pow)]
    entered at index [i] with [k] iterations left. *)
Fixpoint Evaluate_loop (a b : vec) (k : nat) (i : nat) (sum : R) : result R :=
  match k with
  | O => Ok sum
  | S k' =>
      x <- at_ a i ;;
      y <- at_ b i ;;
      t <- pow (fabs (x - y)) (IZR t_pow) ;;
      Evaluate_loop a b k' (S i) (sum + t)
  end.

Definition Evaluate (a b : vec) : result R :=
  sum <- Evaluate_loop a b (n_elem a) 0%nat 0 ;;
  if negb t_take_root then Ok sum
  else
    e <- fdiv 1 (IZR t_pow) ;;
    pow sum e.

End LMetric.

(** ** Convenience typedefs *)

Definition ManhattanDistance : vec -> vec -> result R := Evaluate 1 false.
Definition SquaredEuclideanDistance : vec -> vec -> result R := Evaluate 2 false.
Definition EuclideanDistance : vec -> vec -> result R := Evaluate 2 true.

(** ** The mathematical reading of the metric

    These definitions follow the formulas of the documentation, not the code:
    a sum over the coordinates (as far as both vectors go) and the p-th root
    as the non-negative solution of [r ^ p = s]. *)

(** [sum_i |a_i - b_i| ^ p] *)
Fixpoint lp_sum (p : Z) (a b : vec) : R :=
  match a, b with
  | x :: a', y :: b' => powerRZ (Rabs (x - y)) p + lp_sum p a' b'
  | _, _ => 0
  end.

(** [r] is the p-th root of [s]: [r = s ^ (1/p)] *)
Definition is_root (p : Z) (s r : R) : Prop :=
  0 <= r /\ powerRZ r p = s.

(** [k * v] *)
Definition scale (k : R) (v : vec) : vec := map (Rmult k) v.



(** * The same code on IEEE 754 binary64

    The second embedding keeps [double] as it is: vectors hold binary64
    numbers, [-], [+], [/] and [fabs] are the IEEE operations (each result
    rounded to nearest, ties to even; infinities and NaN are values, not
    errors), and the conversion of [t_pow] to [double] is the rounding of an
    integer.  [pow] belongs to the C library, not to the repository: the code
    is embedded over an arbitrary [pow], and a reference [pow_cr] is given to
    run it on concrete inputs.  Only an out-of-range [v[i]] is an error. *)

Module Binary64.

Import QArith Qabs PrimFloat SpecFloat FloatOps.
Local Open Scope float_scope.

Definition vec : Type := list float.

Definition n_elem (v : vec) : nat := length v.

Definition at_ (v : vec) (i : nat) : result float :=
  match nth_error v i with
  | Some x => Ok x
  | None => Err OutOfBounds
  end.

(** [m * 2 ^ e] rounded to the nearest binary64 number, ties to even. *)
Definition nearest (m e : Z) : float :=
  SF2Prim (binary_normalize prec emax m e false).

(** The conversion [int -> double]. *)
Definition of_int (z : Z) : float := nearest z 0.

Definition fabs (x : float) : float := abs x.

Section LMetric.

(** The C library's [pow], and the two template parameters. *)
Variable pow : float -> float -> float.
Variable t_pow : Z.
Variable t_take_root : bool.

Fixpoint Evaluate_loop (a b : vec) (k : nat) (i : nat) (sum : float)
  : result float :=
  match k with
  | O => Ok sum
  | S k' =>
      x <- at_ a i ;;
      y <- at_ b i ;;
      Evaluate_loop a b k' (S i) (sum + pow (fabs (x - y)) (of_int t_pow))
  end.

Definition Evaluate (a b : vec) : result float :=
  sum <- Evaluate_loop a b (n_elem a) 0%nat 0 ;;
  if negb t_take_root then Ok sum
  else Ok (pow sum (1 / of_int t_pow)).

End LMetric.

Definition ManhattanDistance (pow : float -> float -> float)
  : vec -> vec -> result float := Evaluate pow 1 false.
Definition SquaredEuclideanDistance (pow : float -> float -> float)
  : vec -> vec -> result float := Evaluate pow 2 false.
Definition EuclideanDistance (pow : float -> float -> float)
  : vec -> vec -> result float := Evaluate pow 2 true.

(** ** The sums as double arithmetic computes them

    The terms are added in ascending index order, starting from 0, and every
    subtraction, power and addition is rounded. *)

Definition rounded_lp_sum (pow : float -> float -> float) (p : Z) (a b : vec)
  : float :=
  fold_left (fun s xy => s + pow (fabs (fst xy - snd xy)) (of_int p))
            (combine a b) 0.

Definition rounded_l1_sum (a b : vec) : float :=
  fold_left (fun s xy => s + fabs (fst xy - snd xy)) (combine a b) 0.

(** [k * v] *)
Definition scale (k : float) (v : vec) : vec := map (mul k) v.

(** ** Exact values

    The rational number a finite binary64 number stands for, and the sums of
    the documentation on rationals. *)

Definition F2Q (x : float) : Q :=
  match Prim2SF x with
  | S754_finite s m e =>
      ((if s then -1 else 1) * inject_Z (Zpos m) * Qpower 2 e)%Q
  | _ => 0%Q
  end.

Fixpoint lp_sum_Q (p : Z) (a b : list Q) : Q :=
  match a, b with
  | x :: a', y :: b' => (Qpower (Qabs (x - y)) p + lp_sum_Q p a' b')%Q
  | _, _ => 0%Q
  end.

Fixpoint l1_sum_Q (a b : list Q) : Q :=
  match a, b with
  | x :: a', y :: b' => (Qabs (x - y) + l1_sum_Q a' b')%Q
  | _, _ => 0%Q
  end.

(** ** A reference pow

    [pow_cr] follows the C standard (7.12.7.4, F.10.4.4) and rounds correctly
    on the exponents the presets pass: 1, the integers from 2 on, and 1/2
    (the square root).  Other exponents are not covered and give NaN; it is
    only run with the powers 1 and 2. *)

(** [x ^ n] for an integer [n >= 1]: the exact power, rounded once. *)
Definition pow_integer (x : float) (n : positive) : float :=
  match Prim2SF x with
  | S754_finite s m e =>
      nearest (Z.pow (if s then Zneg m else Zpos m) (Zpos n)) (e * Zpos n)
  | S754_zero s => if s && Z.odd (Zpos n) then (-0) else 0
  | S754_infinity s => if s && Z.odd (Zpos n) then neg_infinity else infinity
  | S754_nan => nan
  end.

(** The integer a binary64 number is, if it is one. *)
Definition integer_of (y : float) : option Z :=
  match Prim2SF y with
  | S754_zero _ => Some 0%Z
  | S754_finite s m e =>
      let n := if s then Zneg m else Zpos m in
      if (0 <=? e)%Z then Some (n * 2 ^ e)%Z
      else if (n mod 2 ^ (- e) =? 0)%Z then Some (n / 2 ^ (- e))%Z
      else None
  | _ => None
  end.

Definition pow_cr (x y : float) : float :=
  if y =? 1 then x
  else if y =? 0 then 1
  else if x =? 1 then 1
  else if is_nan x || is_nan y then nan
  else if y =? 0.5 then
    (if x =? 0 then 0 else if x =? neg_infinity then infinity else sqrt x)
  else
    match integer_of y with
    | Some (Zpos n) => pow_integer x n
    | _ => nan
    end.

End Binary64.

(** ** The primitives on the arguments the metric gives them *)

(** Split a goal along every case of [pow]. *)
Ltac case_pow :=
  unfold pow;
  repeat match goal with
         | |- context [if ?c then _ else _] => destruct c
         | |- context [match integral ?y with _ => _ end] => destruct (integral y)
         end.

Lemma powerRZ_zero (p : Z) : (0 < p)%Z -> powerRZ 0 p = 0.
Proof.
  destruct p as [|q|q]; try lia. intros _. simpl.
  apply pow_i. apply Pos2Nat.is_pos.
Qed.

Lemma powerRZ_nonneg (p : Z) (x : R) : (0 < p)%Z -> 0 <= x -> 0 <= powerRZ x p.
Proof.
  destruct p as [|q|q]; try lia. intros _ Hx. simpl. now apply pow_le.
Qed.

Lemma IZR_pos (p : Z) : (0 < p)%Z -> 0 < IZR p.
Proof. intros H. now apply (IZR_lt 0 p). Qed.

(** On a non-negative base and a positive integral exponent the C [pow] is the
    algebraic power. *)
Lemma pow_int (p : Z) (x : R) :
  (0 < p)%Z -> 0 <= x -> pow x (IZR p) = Ok (powerRZ x p).
Proof.
  intros Hp Hx. unfold pow.
  destruct (Req_dec_T x 0) as [->|Hne].
  - destruct (Rlt_dec 0 (IZR p)) as [_|Hn].
    + now rewrite powerRZ_zero.
    + exfalso. apply Hn. now apply IZR_pos.
  - destruct (Rlt_dec 0 x) as [Hpos|Hn].
    + now rewrite powerRZ_Rpower.
    + exfalso. lra.
Qed.

(** The root step [pow(sum, 1.0 / t_pow)] on a non-negative sum. *)
Lemma pow_root (p : Z) (s : R) :
  (0 < p)%Z -> 0 <= s ->
  exists r, (e <- fdiv 1 (IZR p) ;; pow s e) = Ok r /\ is_root p s r.
Proof.
  intros Hp Hs. pose proof (IZR_pos p Hp) as Hp'.
  unfold fdiv. destruct (Req_dec_T (IZR p) 0) as [E|_]; [lra|]. simpl.
  assert (He : 0 < 1 / IZR p) by (apply Rdiv_lt_0_compat; lra).
  unfold pow. destruct (Req_dec_T s 0) as [->|Hne].
  - destruct (Rlt_dec 0 (1 / IZR p)) as [_|Hn]; [|contradiction].
    exists 0. split; [reflexivity|]. split; [lra|]. now apply powerRZ_zero.
  - destruct (Rlt_dec 0 s) as [Hpos|Hn]; [|lra].
    exists (Rpower s (1 / IZR p)). split; [reflexivity|]. split.
    + left. apply exp_pos.
    + rewrite powerRZ_Rpower by apply exp_pos.
      rewrite Rpower_mult.
      replace (1 / IZR p * IZR p) with 1 by (field; lra).
      now apply Rpower_1.
Qed.

(** ** Monotonicity of the integral power on the non-negative reals *)

Lemma pow_nat_lt (n : nat) (x y : R) :
  0 <= x -> x < y -> x ^ S n < y ^ S n.
Proof.
  intros Hx Hxy. induction n as [|n IH].
  - simpl. lra.
  - change (x ^ S (S n)) with (x * x ^ S n).
    change (y ^ S (S n)) with (y * y ^ S n).
    assert (0 <= x ^ S n) by now apply pow_le.
    nra.
Qed.

Lemma powerRZ_lt_compat (p : Z) (x y : R) :
  (0 < p)%Z -> 0 <= x -> x < y -> powerRZ x p < powerRZ y p.
Proof.
  destruct p as [|q|q]; try lia. intros _ Hx Hxy. simpl.
  destruct (Pos2Nat.is_succ q) as [n ->]. now apply pow_nat_lt.
Qed.

Lemma powerRZ_le_iff (p : Z) (x y : R) :
  (0 < p)%Z -> 0 <= x -> 0 <= y -> (powerRZ x p <= powerRZ y p <-> x <= y).
Proof.
  intros Hp Hx Hy. split; intros H.
  - destruct (Rle_lt_dec x y) as [|Hlt]; [assumption|].
    pose proof (powerRZ_lt_compat p y x Hp Hy Hlt). lra.
  - destruct H as [H| ->]; [|lra].
    left. now apply powerRZ_lt_compat.
Qed.

(** The p-th root of a real is unique. *)
Lemma is_root_unique (p : Z) (s r1 r2 : R) :
  (0 < p)%Z -> is_root p s r1 -> is_root p s r2 -> r1 = r2.
Proof.
  intros Hp [H1 E1] [H2 E2].
  apply Rle_antisym; apply (powerRZ_le_iff p); auto; lra.
Qed.

(** ** The accumulation loop *)

Lemma at_cons (x : R) (v : vec) (i : nat) : at_ (x :: v) (S i) = at_ v i.
Proof. reflexivity. Qed.

(** Dropping the first coordinate of both vectors shifts the loop index. *)
Lemma Evaluate_loop_cons (p : Z) (x y : R) (a b : vec) (k i : nat) (s : R) :
  Evaluate_loop p (x :: a) (y :: b) k (S i) s = Evaluate_loop p a b k i s.
Proof.
  revert i s. induction k as [|k IH]; intros i s; [reflexivity|].
  simpl. rewrite !at_cons.
  destruct (at_ a i) as [u|e]; [|reflexivity]. simpl.
  destruct (at_ b i) as [v|e]; [|reflexivity]. simpl.
  destruct (pow (fabs (u - v)) (IZR p)) as [t|e]; [|reflexivity]. simpl.
  apply IH.
Qed.

(** The loop only looks at the coordinates [i .. i + k - 1] of [b]. *)
Lemma Evaluate_loop_ext (p : Z) (a b b' : vec) (k i : nat) (s : R) :
  (forall j, (i <= j < i + k)%nat -> nth_error b j = nth_error b' j) ->
  Evaluate_loop p a b k i s = Evaluate_loop p a b' k i s.
Proof.
  revert i s. induction k as [|k IH]; intros i s H; [reflexivity|].
  simpl. unfold at_ at 2 4. rewrite <- (H i) by lia.
  destruct (at_ a i) as [u|e]; [|reflexivity]. simpl.
  destruct (nth_error b i) as [v|]; [|reflexivity]. simpl.
  destruct (pow (fabs (u - v)) (IZR p)) as [t|e]; [|reflexivity]. simpl.
  apply IH. intros j Hj. apply H. lia.
Qed.

(** The loop never fails on an index while [i + k] stays within both vectors. *)
Lemma Evaluate_loop_in_bounds (p : Z) (a b : vec) (k i : nat) (s : R) :
  (i + k <= n_elem a)%nat -> (i + k <= n_elem b)%nat ->
  Evaluate_loop p a b k i s <> Err OutOfBounds.
Proof.
  unfold n_elem. revert i s. induction k as [|k IH]; intros i s Ha Hb; [discriminate|].
  simpl. unfold at_.
  destruct (nth_error a i) as [u|] eqn:Eu.
  2:{ apply nth_error_None in Eu. lia. }
  destruct (nth_error b i) as [v|] eqn:Ev.
  2:{ apply nth_error_None in Ev. lia. }
  simpl. case_pow; simpl; try discriminate; apply IH; lia.
Qed.

(** With a positive power the loop adds the sum of the powered differences. *)
Lemma Evaluate_loop_sum (p : Z) (a b : vec) (s : R) :
  (0 < p)%Z -> (n_elem a <= n_elem b)%nat ->
  Evaluate_loop p a b (n_elem a) 0 s = Ok (s + lp_sum p a b).
Proof.
  intros Hp. unfold n_elem. revert b s.
  induction a as [|x a IH]; intros b s Hlen.
  - simpl. f_equal. destruct b; simpl; lra.
  - destruct b as [|y b]; simpl in Hlen; [lia|].
    simpl. unfold fabs. rewrite pow_int by (auto using Rabs_pos). simpl.
    rewrite Evaluate_loop_cons, IH by lia.
    f_equal. lra.
Qed.

Lemma lp_sum_nonneg (p : Z) (a b : vec) : (0 < p)%Z -> 0 <= lp_sum p a b.
Proof.
  intros Hp. revert b. induction a as [|x a IH]; intros [|y b]; simpl; try lra.
  pose proof (powerRZ_nonneg p (Rabs (x - y)) Hp (Rabs_pos _)).
  specialize (IH b). lra.
Qed.

(** ** What Evaluate returns *)

Lemma Evaluate_no_root (p : Z) (a b : vec) :
  (0 < p)%Z -> (n_elem a <= n_elem b)%nat ->
  Evaluate p false a b = Ok (lp_sum p a b).
Proof.
  intros Hp Hlen. unfold Evaluate.
  rewrite Evaluate_loop_sum by assumption. simpl. f_equal. lra.
Qed.

Lemma Evaluate_root (p : Z) (a b : vec) :
  (0 < p)%Z -> (n_elem a <= n_elem b)%nat ->
  exists r, Evaluate p true a b = Ok r /\ is_root p (lp_sum p a b) r.
Proof.
  intros Hp Hlen. unfold Evaluate.
  rewrite Evaluate_loop_sum by assumption. simpl.
  rewrite Rplus_0_l. apply pow_root; [assumption|now apply lp_sum_nonneg].
Qed.

(** When [b] is shorter than [a] the loop reads past the end of [b]. *)
Lemma Evaluate_loop_short (p : Z) (a b : vec) (s : R) :
  (0 < p)%Z -> (n_elem b < n_elem a)%nat ->
  Evaluate_loop p a b (n_elem a) 0 s = Err OutOfBounds.
Proof.
  intros Hp. unfold n_elem. revert b s.
  induction a as [|x a IH]; intros b s Hlen; simpl in Hlen; [lia|].
  destruct b as [|y b]; [reflexivity|]. simpl in Hlen.
  simpl. unfold fabs. rewrite pow_int by (auto using Rabs_pos). simpl.
  rewrite Evaluate_loop_cons. apply IH. lia.
Qed.

Lemma pow_in_bounds (x y : R) : pow x y <> Err OutOfBounds.
Proof.
  case_pow; discriminate.
Qed.

Lemma fdiv_in_bounds (x y : R) : fdiv x y <> Err OutOfBounds.
Proof. unfold fdiv. destruct (Req_dec_T y 0); discriminate. Qed.

(** The precondition on the lengths matters: a shorter [b] is read out of
    bounds, whatever the configuration. *)
Lemma Evaluate_short (p : Z) (tr : bool) (a b : vec) :
  (0 < p)%Z -> (n_elem b < n_elem a)%nat ->
  Evaluate p tr a b = Err OutOfBounds.
Proof.
  intros Hp Hlen. unfold Evaluate.
  now rewrite Evaluate_loop_short.
Qed.

(** ** Relations between the sums *)

Lemma lp_sum_sym (p : Z) (a b : vec) : lp_sum p a b = lp_sum p b a.
Proof.
  revert b. induction a as [|x a IH]; intros [|y b]; simpl; try reflexivity.
  now rewrite (Rabs_minus_sym x y), IH.
Qed.

Lemma lp_sum_self (p : Z) (a : vec) : (0 < p)%Z -> lp_sum p a a = 0.
Proof.
  intros Hp. induction a as [|x a IH]; simpl; [reflexivity|].
  rewrite IH. unfold Rminus. rewrite Rplus_opp_r, Rabs_R0, powerRZ_zero by assumption.
  lra.
Qed.



(** ** Properties of the metric *)

(** C4. Symmetry: for equal-length vectors and a positive power,
    [Evaluate(a, b)] and [Evaluate(b, a)] return the same number. *)
Theorem Evaluate_symmetric (p : Z) (tr : bool) (a b : vec) :
  (0 < p)%Z -> n_elem a = n_elem b ->
  exists d, Evaluate p tr a b = Ok d /\ Evaluate p tr b a = Ok d.
Proof.
  intros Hp Hlen. destruct tr.
  - destruct (Evaluate_root p a b) as (r1 & E1 & H1); [assumption|lia|].
    destruct (Evaluate_root p b a) as (r2 & E2 & H2); [assumption|lia|].
    exists r1. split; [assumption|]. rewrite E2. f_equal.
    rewrite lp_sum_sym in H2. now apply (is_root_unique p (lp_sum p a b)).
  - exists (lp_sum p a b). split.
    + apply Evaluate_no_root; [assumption|lia].
    + rewrite lp_sum_sym. apply Evaluate_no_root; [assumption|lia].
Qed.

Lemma Evaluate_symmetric_witness :
  (0 < 3)%Z /\ n_elem [1; 2] = n_elem [5; 7] /\
  exists d, Evaluate 3 true [1; 2] [5; 7] = Ok d /\
            Evaluate 3 true [5; 7] [1; 2] = Ok d.
Proof.
  split; [reflexivity|]. split; [reflexivity|].
  apply (Evaluate_symmetric 3 true [1; 2] [5; 7]); reflexivity.
Defined.

(** C5. Non-negativity: for equal-length vectors and a positive power,
    [Evaluate] returns a number that is at least 0. *)
Theorem Evaluate_nonneg (p : Z) (tr : bool) (a b : vec) :
  (0 < p)%Z -> n_elem a = n_elem b ->
  exists d, Evaluate p tr a b = Ok d /\ 0 <= d.
Proof.
  intros Hp Hlen. destruct tr.
  - destruct (Evaluate_root p a b) as (r & E & Hr & _); [assumption|lia|].
    now exists r.
  - exists (lp_sum p a b). split.
    + apply Evaluate_no_root; [assumption|lia].
    + now apply lp_sum_nonneg.
Qed.

Lemma Evaluate_nonneg_witness :
  (0 < 2)%Z /\ n_elem [1; -2] = n_elem [-5; 7] /\
  exists d, Evaluate 2 true [1; -2] [-5; 7] = Ok d /\ 0 <= d.
Proof.
  split; [reflexivity|]. split; [reflexivity|].
  apply (Evaluate_nonneg 2 true [1; -2] [-5; 7]); reflexivity.
Defined.

(** C6. Identity: for every vector and every positive power, with or without
    the root, [Evaluate(a, a)] is 0. *)
Theorem Evaluate_self (p : Z) (tr : bool) (a : vec) :
  (0 < p)%Z -> Evaluate p tr a a = Ok 0.
Proof.
  intros Hp. destruct tr.
  - destruct (Evaluate_root p a a) as (r & E & Hr); [assumption|lia|].
    rewrite E. f_equal. rewrite lp_sum_self in Hr by assumption.
    apply (is_root_unique p 0); [assumption|assumption|].
    split; [lra|now apply powerRZ_zero].
  - rewrite Evaluate_no_root by (assumption || lia).
    now rewrite lp_sum_self.
Qed.

Lemma Evaluate_self_witness :
  (0 < 3)%Z /\ Evaluate 3 true [1; -2; 7] [1; -2; 7] = Ok 0.
Proof.
  split; [reflexivity|].
  apply (Evaluate_self 3 true [1; -2; 7]); reflexivity.
Defined.

(** C9. On a = [0,0] and b = [3,4] the Manhattan distance is 7, the squared
    Euclidean distance is 25 and the Euclidean distance is 5. *)
Theorem presets_3_4 :
  ManhattanDistance [0; 0] [3; 4] = Ok 7 /\
  SquaredEuclideanDistance [0; 0] [3; 4] = Ok 25 /\
  EuclideanDistance [0; 0] [3; 4] = Ok 5.
Proof.
  assert (A3 : Rabs (0 - 3) = 3) by (rewrite Rabs_minus_sym, Rabs_pos_eq; lra).
  assert (A4 : Rabs (0 - 4) = 4) by (rewrite Rabs_minus_sym, Rabs_pos_eq; lra).
  unfold ManhattanDistance, SquaredEuclideanDistance, EuclideanDistance.
  assert (S2 : lp_sum 2 [0; 0] [3; 4] = 25) by (simpl; rewrite A3, A4; lra).
  repeat split.
  - rewrite Evaluate_no_root by (simpl; lia). f_equal.
    simpl. rewrite A3, A4. lra.
  - rewrite Evaluate_no_root by (simpl; lia). now f_equal.
  - destruct (Evaluate_root 2 [0; 0] [3; 4]) as (r & E & Hr);
      [lia|simpl; lia|].
    rewrite E. f_equal. rewrite S2 in Hr.
    apply (is_root_unique 2 25); [lia|assumption|].
    split; [lra|simpl; lra].
Qed.

(** C10. [Evaluate] reads [b] only at the indices below [a.n_elem]: when [b]
    is at least as long as [a] no access is out of bounds, the result does not
    depend on what [b] holds from index [a.n_elem] on, and it is the distance
    of the first [a.n_elem] coordinates of both vectors. *)
Theorem Evaluate_index_range (p : Z) (tr : bool) (a b : vec) :
  (n_elem a <= n_elem b)%nat ->
  Evaluate p tr a b <> Err OutOfBounds /\
  (forall b', (forall j, (j < n_elem a)%nat -> nth_error b' j = nth_error b j) ->
              Evaluate p tr a b' = Evaluate p tr a b) /\
  Evaluate p tr a b
  = Evaluate p tr (firstn (n_elem a) a) (firstn (n_elem a) b).
Proof.
  intros Hlen.
  assert (Hext : forall b', (forall j, (j < n_elem a)%nat ->
                                       nth_error b' j = nth_error b j) ->
                            Evaluate p tr a b' = Evaluate p tr a b).
  { intros b' H. unfold Evaluate.
    rewrite (Evaluate_loop_ext p a b' b); [reflexivity|].
    intros j Hj. apply H. lia. }
  split; [|split; [exact Hext|]].
  - unfold Evaluate.
    pose proof (Evaluate_loop_in_bounds p a b (n_elem a) 0 0) as H.
    destruct (Evaluate_loop p a b (n_elem a) 0 0) as [s|e]; simpl.
    + destruct tr; simpl; [|discriminate].
      pose proof (fdiv_in_bounds 1 (IZR p)) as Hd.
      destruct (fdiv 1 (IZR p)) as [e|e]; simpl; [apply pow_in_bounds|exact Hd].
    + apply H; simpl; lia.
  - change (firstn (n_elem a) a) with (firstn (length a) a).
    rewrite firstn_all. symmetry. apply Hext.
    intros j Hj. rewrite nth_error_firstn.
    apply Nat.ltb_lt in Hj. now rewrite Hj.
Qed.

Lemma Evaluate_index_range_witness :
  le (n_elem [1; 2]) (n_elem [4; 6; 9]) /\
  Evaluate 2 true [1; 2] [4; 6; 9] <> Err OutOfBounds /\
  (forall b', (forall j, lt j (n_elem [1; 2]) ->
                         nth_error b' j = nth_error [4; 6; 9] j) ->
              Evaluate 2 true [1; 2] b' = Evaluate 2 true [1; 2] [4; 6; 9]) /\
  Evaluate 2 true [1; 2] [4; 6; 9]
  = Evaluate 2 true (firstn (n_elem [1; 2]) [1; 2])
                    (firstn (n_elem [1; 2]) [4; 6; 9]).
Proof.
  assert (H : le (n_elem [1; 2]) (n_elem [4; 6; 9])) by (simpl; lia).
  split; [exact H|].
  apply (Evaluate_index_range 2 true [1; 2] [4; 6; 9] H).
Defined.

(** ** Order and scaling

    The rooted value is [pow] of the un-rooted one, so the two order pairs of
    points the same way in one direction only: distinct sums may round to the
    same root.  Scaling by [k] commutes with the metric exactly only where no
    rounding is involved: in the sign of [k], for [k = 0] and for [|k| = 1]. *)





(** * Further properties of Evaluate *)

(** ** Which calls return a number *)

(** X1. With a positive power and vectors of different lengths the order of
    the arguments matters: the call whose second vector is the shorter one
    reads past its end, the call the other way round returns a number. *)
Theorem Evaluate_unequal_lengths (p : Z) (tr : bool) (a b : vec) :
  (0 < p)%Z -> (n_elem b < n_elem a)%nat ->
  Evaluate p tr a b = Err OutOfBounds /\
  exists d, Evaluate p tr b a = Ok d.
Proof.
  intros Hp Hlen. split.
  - unfold Evaluate. rewrite Evaluate_loop_short by assumption. reflexivity.
  - destruct tr.
    + destruct (Evaluate_root p b a) as (r & E & _); [assumption|lia|].
      now exists r.
    + exists (lp_sum p b a). apply Evaluate_no_root; [assumption|lia].
Qed.

Lemma Evaluate_unequal_lengths_witness :
  (0 < 2)%Z /\ lt (n_elem [4]) (n_elem [1; 2]) /\
  Evaluate 2 true [1; 2] [4] = Err OutOfBounds /\
  exists d, Evaluate 2 true [4] [1; 2] = Ok d.
Proof.
  split; [reflexivity|].
  assert (H : lt (n_elem [4]) (n_elem [1; 2])) by (simpl; lia).
  split; [exact H|].
  apply (Evaluate_unequal_lengths 2 true [1; 2] [4]); [reflexivity|exact H].
Defined.

(** X3. With a positive power, the distance from the empty vector to any
    vector is 0, with or without the root. *)
Theorem Evaluate_empty (p : Z) (tr : bool) (b : vec) :
  (0 < p)%Z -> Evaluate p tr [] b = Ok 0.
Proof.
  intros Hp. destruct tr.
  - destruct (Evaluate_root p [] b) as (r & E & Hr); [assumption|simpl; lia|].
    rewrite E. f_equal. simpl in Hr.
    apply (is_root_unique p 0); [assumption|assumption|].
    split; [lra|now apply powerRZ_zero].
  - rewrite Evaluate_no_root by (assumption || (simpl; lia)). reflexivity.
Qed.

Lemma Evaluate_empty_witness :
  (0 < 2)%Z /\ Evaluate 2 true [] [4; 6] = Ok 0.
Proof.
  split; [reflexivity|].
  apply (Evaluate_empty 2 true [4; 6]); reflexivity.
Defined.

(** ** Distance zero and translation *)

Lemma powerRZ_eq_0 (p : Z) (x : R) :
  (0 < p)%Z -> 0 <= x -> powerRZ x p = 0 -> x = 0.
Proof.
  intros Hp Hx E. destruct Hx as [Hpos|Hz]; [|now symmetry].
  pose proof (powerRZ_lt_compat p 0 x Hp (Rle_refl 0) Hpos) as H.
  rewrite powerRZ_zero in H by assumption. lra.
Qed.

Lemma lp_sum_eq_0 (p : Z) (a b : vec) :
  (0 < p)%Z -> n_elem a = n_elem b -> lp_sum p a b = 0 -> a = b.
Proof.
  intros Hp. unfold n_elem. revert b.
  induction a as [|x a IH]; intros [|y b] Hlen E; simpl in Hlen; try lia.
  - reflexivity.
  - simpl in E.
    pose proof (powerRZ_nonneg p (Rabs (x - y)) Hp (Rabs_pos _)) as H1.
    pose proof (lp_sum_nonneg p a b Hp) as H2.
    assert (E1 : powerRZ (Rabs (x - y)) p = 0) by lra.
    assert (E2 : lp_sum p a b = 0) by lra.
    apply powerRZ_eq_0 in E1; [|assumption|apply Rabs_pos].
    f_equal.
    + destruct (Req_dec x y) as [|Hne]; [assumption|].
      apply Rminus_eq_contra in Hne. apply Rabs_no_R0 in Hne. contradiction.
    + apply IH; [lia|assumption].
Qed.

Lemma Evaluate_same (p : Z) (tr : bool) (a : vec) :
  (0 < p)%Z -> Evaluate p tr a a = Ok 0.
Proof.
  intros Hp. destruct tr.
  - destruct (Evaluate_root p a a) as (r & E & Hr & Hp'); [assumption|lia|].
    rewrite E. f_equal. rewrite lp_sum_self in Hp' by assumption.
    now apply (powerRZ_eq_0 p).
  - rewrite Evaluate_no_root by (assumption || lia).
    now rewrite lp_sum_self.
Qed.

(** X4. Equal-length vectors at Manhattan distance 0 are equal.  (For powers
    above 1 a small difference can underflow to 0 in [pow]; a difference of
    two distinct doubles is never 0.) *)
Theorem Manhattan_zero_eq (a b : vec) :
  n_elem a = n_elem b -> ManhattanDistance a b = Ok 0 -> a = b.
Proof.
  intros Hlen E. unfold ManhattanDistance in E.
  rewrite Evaluate_no_root in E by lia.
  apply (lp_sum_eq_0 1); [lia|assumption|now injection E].
Qed.

Lemma Manhattan_zero_eq_witness :
  n_elem [1; -2] = n_elem [1; -2] /\
  ManhattanDistance [1; -2] [1; -2] = Ok 0 /\ [1; -2] = [1; -2].
Proof.
  assert (E : ManhattanDistance [1; -2] [1; -2] = Ok 0)
    by (apply Evaluate_same; reflexivity).
  split; [reflexivity|]. split; [exact E|].
  apply (Manhattan_zero_eq [1; -2] [1; -2]); [reflexivity|exact E].
Defined.







(** ** Bounds *)





(** ** The triangle inequality *)

Lemma powerRZ_2_gt (p : Z) : (2 <= p)%Z -> 2 < powerRZ 2 p.
Proof.
  destruct p as [|q|q]; try lia. intros Hq. simpl.
  replace 2 with (2 ^ 1) at 1 by (simpl; lra).
  apply Rlt_pow; [lra|lia].
Qed.

(** X12. Without the root a power of 2 or more does not give a metric: there
    are three points of one line for which the direct value exceeds the sum
    of the values of the two legs.  The squared Euclidean distance is the
    case [p = 2]. *)
Theorem Evaluate_no_root_not_triangle (p : Z) :
  (2 <= p)%Z ->
  exists dab dbc dac,
    Evaluate p false [0] [1] = Ok dab /\ Evaluate p false [1] [2] = Ok dbc /\
    Evaluate p false [0] [2] = Ok dac /\ dab + dbc < dac.
Proof.
  intros Hp.
  assert (A1 : Rabs (0 - 1) = 1) by (rewrite Rabs_minus_sym, Rabs_pos_eq; lra).
  assert (A2 : Rabs (1 - 2) = 1) by (rewrite Rabs_minus_sym, Rabs_pos_eq; lra).
  assert (A3 : Rabs (0 - 2) = 2) by (rewrite Rabs_minus_sym, Rabs_pos_eq; lra).
  exists (lp_sum p [0] [1]), (lp_sum p [1] [2]), (lp_sum p [0] [2]).
  repeat split; try (apply Evaluate_no_root; [lia|simpl; lia]).
  cbn [lp_sum]. rewrite A1, A2, A3.
  assert (E1 : powerRZ 1 p = 1).
  { destruct p as [|q|q]; try lia. simpl. apply pow1. }
  rewrite E1. pose proof (powerRZ_2_gt p Hp). lra.
Qed.

Lemma Evaluate_no_root_not_triangle_witness :
  (2 <= 2)%Z /\
  exists dab dbc dac,
    SquaredEuclideanDistance [0] [1] = Ok dab /\
    SquaredEuclideanDistance [1] [2] = Ok dbc /\
    SquaredEuclideanDistance [0] [2] = Ok dac /\ dab + dbc < dac.
Proof.
  split; [discriminate|].
  apply (Evaluate_no_root_not_triangle 2). discriminate.
Defined.

(** ** Powers that are not positive, and the errors of pow *)

(** On a non-negative base [pow] returns a non-negative number or hits the
    pole at zero; the domain error needs a negative base. *)
Lemma pow_nonneg_cases (x y : R) :
  0 <= x -> (exists t, pow x y = Ok t /\ 0 <= t) \/ pow x y = Err Infinite.
Proof.
  intros Hx. unfold pow.
  destruct (Req_dec_T x 0) as [E|Hne].
  - destruct (Rlt_dec 0 y); [left; exists 0; split; [reflexivity|lra]|].
    destruct (Req_dec_T y 0); [left; exists 1; split; [reflexivity|lra]|].
    now right.
  - destruct (Rlt_dec 0 x) as [Hpos|Hn]; [|lra].
    left. exists (Rpower x y). split; [reflexivity|]. left. apply exp_pos.
Qed.

Lemma pow_0 (x : R) : 0 <= x -> pow x (IZR 0) = Ok 1.
Proof.
  intros Hx. unfold pow.
  destruct (Req_dec_T x 0) as [E|Hne].
  - destruct (Rlt_dec 0 0) as [H|_]; [lra|].
    destruct (Req_dec_T 0 0) as [_|H]; [reflexivity|contradiction].
  - destruct (Rlt_dec 0 x) as [Hpos|Hn]; [|lra].
    now rewrite Rpower_O.
Qed.

Lemma Evaluate_loop_0 (a b : vec) (s : R) :
  (n_elem a <= n_elem b)%nat ->
  Evaluate_loop 0 a b (n_elem a) 0 s = Ok (s + INR (n_elem a)).
Proof.
  unfold n_elem. revert b s.
  induction a as [|x a IH]; intros b s Hlen.
  - simpl. f_equal. lra.
  - destruct b as [|y b]; simpl in Hlen; [lia|].
    cbn [length Evaluate_loop at_ nth_error bind]. unfold fabs.
    rewrite pow_0 by apply Rabs_pos. cbn [bind].
    rewrite Evaluate_loop_cons, IH by lia.
    f_equal. rewrite S_INR. lra.
Qed.

(** X15. With power 0 and no root [Evaluate] counts the coordinates of the
    first vector, since [pow(x, 0)] is 1 even for [x = 0]; so the distance of
    a non-empty vector to itself is not 0. *)
Theorem Evaluate_power_0 (a b : vec) :
  (n_elem a <= n_elem b)%nat ->
  Evaluate 0 false a b = Ok (INR (n_elem a)).
Proof.
  intros Hlen. unfold Evaluate.
  rewrite Evaluate_loop_0 by assumption. simpl. f_equal. lra.
Qed.

Lemma Evaluate_power_0_witness :
  le (n_elem [1; 2]) (n_elem [1; 2]) /\
  Evaluate 0 false [1; 2] [1; 2] = Ok (INR (n_elem [1; 2])).
Proof.
  assert (H : le (n_elem [1; 2]) (n_elem [1; 2])) by (simpl; lia).
  split; [exact H|].
  apply (Evaluate_power_0 [1; 2] [1; 2] H).
Defined.

Lemma IZR_neg (p : Z) : (p < 0)%Z -> IZR p < 0.
Proof. intros H. now apply (IZR_lt p 0). Qed.

Lemma pow_pole (p : Z) : (p < 0)%Z -> pow (fabs (0)) (IZR p) = Err Infinite.
Proof.
  intros Hp. pose proof (IZR_neg p Hp). unfold fabs, pow. rewrite Rabs_R0.
  destruct (Req_dec_T 0 0) as [_|H0]; [|contradiction].
  destruct (Rlt_dec 0 (IZR p)); [lra|].
  destruct (Req_dec_T (IZR p) 0); [lra|reflexivity].
Qed.

Lemma Evaluate_loop_pole (p : Z) (a b : vec) (j : nat) (x : R) :
  (p < 0)%Z -> nth_error a j = Some x -> nth_error b j = Some x ->
  forall k i s,
    (i <= j < i + k)%nat -> (i + k <= n_elem a)%nat ->
    (i + k <= n_elem b)%nat -> 0 <= s ->
    Evaluate_loop p a b k i s = Err Infinite.
Proof.
  intros Hp Ha Hb. unfold n_elem.
  induction k as [|k IH]; intros i s Hj Hla Hlb Hs; [lia|].
  simpl. unfold at_.
  destruct (nth_error a i) as [u|] eqn:Eu.
  2:{ apply nth_error_None in Eu. lia. }
  destruct (nth_error b i) as [v|] eqn:Ev.
  2:{ apply nth_error_None in Ev. lia. }
  simpl. destruct (Nat.eq_dec i j) as [->|Hne].
  - rewrite Ha in Eu. rewrite Hb in Ev. injection Eu as <-. injection Ev as <-.
    unfold Rminus. rewrite Rplus_opp_r, pow_pole by assumption. reflexivity.
  - unfold fabs.
    destruct (pow_nonneg_cases (Rabs (u - v)) (IZR p) (Rabs_pos _))
      as [(t & -> & Ht)| ->]; [|reflexivity].
    simpl. apply IH; lia || lra.
Qed.

(** X16. With a negative power and no root, two vectors that agree in some
    coordinate have no finite distance: [pow(0, t_pow)] is a pole. *)
Theorem Evaluate_negative_power (p : Z) (a b : vec) (j : nat) (x : R) :
  (p < 0)%Z -> (n_elem a <= n_elem b)%nat ->
  nth_error a j = Some x -> nth_error b j = Some x ->
  Evaluate p false a b = Err Infinite.
Proof.
  intros Hp Hlen Ha Hb. unfold Evaluate.
  rewrite (Evaluate_loop_pole p a b j x); try assumption; try lra.
  - reflexivity.
  - assert (nth_error a j <> None) as H by (rewrite Ha; discriminate).
    apply nth_error_Some in H. unfold n_elem. lia.
  - lia.
Qed.

Lemma Evaluate_negative_power_witness :
  (-1 < 0)%Z /\ le (n_elem [1; 5]) (n_elem [2; 5]) /\
  nth_error [1; 5] 1 = Some 5 /\ nth_error [2; 5] 1 = Some 5 /\
  Evaluate (-1) false [1; 5] [2; 5] = Err Infinite.
Proof.
  assert (H : le (n_elem [1; 5]) (n_elem [2; 5])) by (simpl; lia).
  split; [reflexivity|]. split; [exact H|].
  split; [reflexivity|]. split; [reflexivity|].
  apply (Evaluate_negative_power (-1) [1; 5] [2; 5] 1 5);
    [reflexivity|exact H|reflexivity|reflexivity].
Defined.

(** * Evaluate on binary64

    What the double-precision code returns, for any [pow] of the C library,
    and the inputs on which rounding separates it from the exact formulas. *)

Module Binary64Facts.

Import QArith Qabs PrimFloat SpecFloat FloatOps Binary64.
Local Open Scope float_scope.

Lemma of_int_1 : of_int 1 = 1.
Proof. reflexivity. Qed.

Lemma root_exponent_1 : 1 / of_int 1 = 1.
Proof. reflexivity. Qed.


Lemma pow_cr_1 (x : float) : pow_cr x 1 = x.
Proof. reflexivity. Qed.

Section Libm.

Variable pow : float -> float -> float.

Lemma Evaluate_loop_shift (p : Z) (x y : float) (a b : vec) (k i : nat)
  (s : float) :
  Evaluate_loop pow p (x :: a) (y :: b) k (S i) s = Evaluate_loop pow p a b k i s.
Proof.
  revert i s. induction k as [|k IH]; intros i s; [reflexivity|].
  cbn [Evaluate_loop]. change (at_ (x :: a) (S i)) with (at_ a i).
  change (at_ (y :: b) (S i)) with (at_ b i).
  destruct (at_ a i) as [u|e]; [|reflexivity]. cbn [bind].
  destruct (at_ b i) as [v|e]; [|reflexivity]. cbn [bind].
  apply IH.
Qed.

(** The index loop is the left fold over the paired coordinates. *)
Lemma Evaluate_loop_fold (p : Z) (a b : vec) (s : float) :
  (n_elem a <= n_elem b)%nat ->
  Evaluate_loop pow p a b (n_elem a) 0 s
  = Ok (fold_left (fun s xy => s + pow (fabs (fst xy - snd xy)) (of_int p))
                  (combine a b) s).
Proof.
  unfold n_elem. revert b s.
  induction a as [|x a IH]; intros b s Hlen; [reflexivity|].
  destruct b as [|y b]; cbn [length] in Hlen; [lia|].
  cbn [length Evaluate_loop at_ nth_error bind combine fold_left fst snd].
  rewrite Evaluate_loop_shift. apply IH. lia.
Qed.

Lemma Evaluate_no_root_fold (p : Z) (a b : vec) :
  (n_elem a <= n_elem b)%nat ->
  Evaluate pow p false a b = Ok (rounded_lp_sum pow p a b).
Proof.
  intros Hlen. unfold Evaluate. now rewrite Evaluate_loop_fold.
Qed.

Lemma Evaluate_root_fold (p : Z) (a b : vec) :
  (n_elem a <= n_elem b)%nat ->
  Evaluate pow p true a b
  = Ok (pow (rounded_lp_sum pow p a b) (1 / of_int p)).
Proof.
  intros Hlen. unfold Evaluate. now rewrite Evaluate_loop_fold.
Qed.

(** With a [pow] that returns its base for the exponent 1, the terms of power
    1 are the absolute differences themselves. *)
Lemma rounded_lp_sum_1 (a b : vec) :
  (forall x, pow x 1 = x) -> rounded_lp_sum pow 1 a b = rounded_l1_sum a b.
Proof.
  intros Hpow. unfold rounded_lp_sum, rounded_l1_sum. rewrite of_int_1.
  generalize (combine a b) 0. intros l.
  induction l as [|xy l IH]; intros s; [reflexivity|].
  cbn [fold_left]. now rewrite Hpow, IH.
Qed.

(** With a [pow] that returns its base for the exponent 1, power 1 gives the
    rounded sum of the absolute differences, with or without the root. *)
Lemma Evaluate_power_1_total (tr : bool) (a b : vec) :
  (forall x, pow x 1 = x) -> n_elem a = n_elem b ->
  Evaluate pow 1 tr a b = Ok (rounded_l1_sum a b).
Proof.
  intros Hpow Hlen. destruct tr.
  - rewrite Evaluate_root_fold by lia.
    now rewrite root_exponent_1, Hpow, rounded_lp_sum_1.
  - rewrite Evaluate_no_root_fold by lia. now rewrite rounded_lp_sum_1.
Qed.

End Libm.

(** C1 (amended). For equal-length vectors [Evaluate] without the root
    returns the terms [pow(fabs(a_i - b_i), p)] added in ascending index
    order in double arithmetic, every operation rounded; with the root it
    returns [pow] of that sum to the exponent [1.0 / p]. *)
Theorem Evaluate_rounded_formula (pow : float -> float -> float) (p : Z)
  (a b : vec) :
  n_elem a = n_elem b ->
  Evaluate pow p false a b = Ok (rounded_lp_sum pow p a b) /\
  Evaluate pow p true a b = Ok (pow (rounded_lp_sum pow p a b) (1 / of_int p)).
Proof.
  intros Hlen. split.
  - apply Evaluate_no_root_fold. lia.
  - apply Evaluate_root_fold. lia.
Qed.

Lemma Evaluate_rounded_formula_witness :
  n_elem [1e8; 1; 1] = n_elem [0; 0; 0] /\
  Evaluate pow_cr 2 false [1e8; 1; 1] [0; 0; 0]
  = Ok (rounded_lp_sum pow_cr 2 [1e8; 1; 1] [0; 0; 0]) /\
  Evaluate pow_cr 2 true [1e8; 1; 1] [0; 0; 0]
  = Ok (pow_cr (rounded_lp_sum pow_cr 2 [1e8; 1; 1] [0; 0; 0]) (1 / of_int 2)).
Proof.
  split; [reflexivity|].
  apply (Evaluate_rounded_formula pow_cr 2 [1e8; 1; 1] [0; 0; 0]). reflexivity.
Defined.

(** C1 (counterexample). The exact formula fails on doubles: with power 2
    and no root, on [10^8, 1, 1] and [0, 0, 0] the code returns [10^16],
    while the sum of the squared differences is [10^16 + 2], itself a
    binary64 number. *)
Lemma Evaluate_formula_not_exact :
  Evaluate pow_cr 2 false [1e8; 1; 1] [0; 0; 0] = Ok 1e16 /\
  ~ Qeq (F2Q 1e16) (lp_sum_Q 2 (map F2Q [1e8; 1; 1]) (map F2Q [0; 0; 0])) /\
  Qeq (lp_sum_Q 2 (map F2Q [1e8; 1; 1]) (map F2Q [0; 0; 0]))
      (F2Q 10000000000000002).
Proof.
  split; [vm_compute; reflexivity|]. split.
  - unfold Qeq. vm_compute. discriminate.
  - unfold Qeq. vm_compute. reflexivity.
Qed.

(** C2 (amended). With power 1 and a [pow] that returns its base for the
    exponent 1, [Evaluate] returns the same number with and without the
    root: the absolute differences added in ascending index order in double
    arithmetic. *)
Theorem Evaluate_power_1_rounded (pow : float -> float -> float) (tr : bool)
  (a b : vec) :
  (forall x, pow x 1 = x) -> n_elem a = n_elem b ->
  Evaluate pow 1 tr a b = Ok (rounded_l1_sum a b).
Proof.
  intros Hpow Hlen. destruct tr.
  - rewrite Evaluate_root_fold by lia.
    rewrite root_exponent_1, Hpow. f_equal. now apply rounded_lp_sum_1.
  - rewrite Evaluate_no_root_fold by lia.
    f_equal. now apply rounded_lp_sum_1.
Qed.

Lemma Evaluate_power_1_rounded_witness :
  (forall x, pow_cr x 1 = x) /\ n_elem [1e16; 1; 1] = n_elem [0; 0; 0] /\
  Evaluate pow_cr 1 true [1e16; 1; 1] [0; 0; 0]
  = Ok (rounded_l1_sum [1e16; 1; 1] [0; 0; 0]).
Proof.
  split; [exact pow_cr_1|]. split; [reflexivity|].
  apply (Evaluate_power_1_rounded pow_cr true [1e16; 1; 1] [0; 0; 0]);
    [exact pow_cr_1|reflexivity].
Defined.

(** C2 (counterexample). The exact sum fails on doubles: on [10^16, 1, 1]
    and [0, 0, 0] the code returns [10^16] with and without the root, while
    the sum of the absolute differences is [10^16 + 2], itself a binary64
    number. *)
Lemma Evaluate_power_1_not_exact :
  Evaluate pow_cr 1 false [1e16; 1; 1] [0; 0; 0] = Ok 1e16 /\
  Evaluate pow_cr 1 true [1e16; 1; 1] [0; 0; 0] = Ok 1e16 /\
  ~ Qeq (F2Q 1e16) (l1_sum_Q (map F2Q [1e16; 1; 1]) (map F2Q [0; 0; 0])) /\
  Qeq (l1_sum_Q (map F2Q [1e16; 1; 1]) (map F2Q [0; 0; 0]))
      (F2Q 10000000000000002).
Proof.
  split; [vm_compute; reflexivity|]. split; [vm_compute; reflexivity|]. split.
  - unfold Qeq. vm_compute. discriminate.
  - unfold Qeq. vm_compute. reflexivity.
Qed.






(** ** Where rounding breaks a metric law *)

(** X17. On doubles distance 0 does not make two points equal once the power
    exceeds 1: the square of [2^-600] underflows, so [2^-600] and [0] are at
    squared Euclidean and at Euclidean distance 0. *)
Theorem Euclidean_zero_underflow :
  exists a b : vec,
    n_elem a = n_elem b /\ a <> b /\
    SquaredEuclideanDistance pow_cr a b = Ok 0 /\
    EuclideanDistance pow_cr a b = Ok 0.
Proof.
  exists [0x1p-600], [0]. split; [reflexivity|]. split.
  - intros H.
    pose proof (f_equal (fun l => match l with x :: _ => x =? 0 | [] => true end) H)
      as E.
    vm_compute in E. discriminate E.
  - split; vm_compute; reflexivity.
Qed.

(** X18. On doubles the Manhattan distance can miss the triangle inequality
    by a rounding error: for the doubles next to 0.2 and 0.9 the distance
    from 0 to 0.9 exceeds the distance from 0 to 0.2 plus the distance from
    0.2 to 0.9, because the difference [0.2 - 0.9] is rounded.  This holds
    for every [pow] that returns its base for the exponent 1. *)
Theorem Manhattan_triangle_rounding (pow : float -> float -> float) :
  (forall x, pow x 1 = x) ->
  exists (a b c : vec) (dab dbc dac : float),
    n_elem a = n_elem b /\ n_elem b = n_elem c /\
    ManhattanDistance pow a b = Ok dab /\
    ManhattanDistance pow b c = Ok dbc /\
    ManhattanDistance pow a c = Ok dac /\
    (dab + dbc <? dac) = true /\
    Qlt (Qplus (F2Q dab) (F2Q dbc)) (F2Q dac).
Proof.
  intros Hpow.
  exists [0], [0x1.999999999999ap-3], [0x1.ccccccccccccdp-1].
  exists 0x1.999999999999ap-3, 0x1.6666666666666p-1, 0x1.ccccccccccccdp-1.
  unfold ManhattanDistance.
  rewrite !(Evaluate_power_1_total pow false) by (assumption || reflexivity).
  repeat (split; [vm_compute; reflexivity|]).
  unfold Qlt. vm_compute. reflexivity.
Qed.

Lemma Manhattan_triangle_rounding_witness :
  (forall x, pow_cr x 1 = x) /\
  exists (a b c : vec) (dab dbc dac : float),
    n_elem a = n_elem b /\ n_elem b = n_elem c /\
    ManhattanDistance pow_cr a b = Ok dab /\
    ManhattanDistance pow_cr b c = Ok dbc /\
    ManhattanDistance pow_cr a c = Ok dac /\
    (dab + dbc <? dac) = true /\
    Qlt (Qplus (F2Q dab) (F2Q dbc)) (F2Q dac).
Proof.
  split; [exact pow_cr_1|].
  apply (Manhattan_triangle_rounding pow_cr). exact pow_cr_1.
Defined.

End Binary64Facts.
